(** * Audit-log events of the WorkOS Go client (src/auditlog/event.go)

    A shallow embedding of the event model: the [Event] struct, its setters,
    [AddMetadata]/[addMetadata] with the 500-entry guard, the constructors
    [NewEvent], [NewEventWithHTTP], [NewEventWithMetadata], and [Publish] with
    the merge of the package-level default metadata, JSON serialization and
    hand-off to the transport.

    Go's [map[string]interface{}] is a reference type: an [Event] passed by
    value still shares its [Metadata] map with the caller.  The model keeps
    the map as part of the event and every operation returns the caller's
    event after the call, i.e. with the shared map's new contents.  A nil
    map is [None]; writing to it is a Go run-time panic. *)

From stdpp Require Import base gmap strings list sorting pretty.
From Stdlib Require Import ZArith.

Open Scope Z_scope.

(** ** JSON values, as produced by [encoding/json] *)

#[local] Set Warnings "-register-all".

Inductive json :=
| JNull
| JBool (b : bool)
| JNum (z : Z)
| JStr (s : string)
| JArr (l : list json)
| JObj (fields : list (string * json)).

(** ** The [Auditable] interface *)

Class Auditable (A : Type) := {
  ToAuditableName : A -> string;
  ToAuditableID : A -> string
}.

(** A dynamic value whose concrete type implements [Auditable]: the results
    of its two methods, and what [json.Marshal] makes of the value itself
    ([None] when the type cannot be encoded). *)
Record auditable_obj := mkAuditable {
  aud_name : string;
  aud_id : string;
  aud_json : option json
}.

#[global] Instance auditable_obj_Auditable : Auditable auditable_obj := {
  ToAuditableName := aud_name;
  ToAuditableID := aud_id
}.

(** A value of type [interface{}] stored in the metadata. *)
Inductive value :=
| VString (s : string)           (* a Go string *)
| VAuditable (a : auditable_obj) (* its dynamic type implements Auditable *)
| VOther (enc : option json).    (* any other dynamic value with its JSON
                                    encoding, [None] for types json.Marshal
                                    rejects (chan, func, complex, ...) *)

Abbreviation meta := (gmap string value).

(** ** Errors *)

Inductive error :=
| ErrCapacity          (* "attempted to add over 500 properties to metadata, ignoring" *)
| ErrSerialization     (* the error returned by json.Marshal *)
| ErrTransport (msg : string). (* any error of client.PublishEvent *)

(** A Go computation either returns or panics. *)
Inductive go (A : Type) := Ret (a : A) | Panic.
Arguments Ret {A} _.
Arguments Panic {A}.

(** ** ActionType and Action *)

Definition ActionType := string.
Definition Create : ActionType := "C".
Definition Read : ActionType := "R".
Definition Update : ActionType := "U".
Definition Delete : ActionType := "D".

(** Modelled from the spec: the [Action] type is declared outside
    src/auditlog/event.go; the spec describes it as a string naming the
    action ("category.verb"), encoded as a JSON string. *)
Definition Action := string.

(** [time.Time], kept as its calendar year and its RFC 3339 rendering (what
    [Time.MarshalJSON] writes); [Time.MarshalJSON] fails outside the years
    0..9999. *)
Record Time := mkTime { t_year : Z; t_rfc3339 : string }.

Definition zero_time : Time := mkTime 1 "0001-01-01T00:00:00Z".

(** ** The [Event] struct *)

Record Event := mkEvent {
  Group : string;
  EAction : Action;
  EActionType : ActionType;
  ActorName : string;
  ActorID : string;
  Location : string;
  OccuredAt : Time;
  TargetName : string;
  TargetID : string;
  Metadata : option meta
}.

(** [Event{}] *)
Definition zero_event : Event :=
  mkEvent "" "" "" "" "" "" zero_time "" "" None.

Definition set_Metadata (e : Event) (m : option meta) : Event :=
  mkEvent (Group e) (EAction e) (EActionType e) (ActorName e) (ActorID e)
    (Location e) (OccuredAt e) (TargetName e) (TargetID e) m.

(** ** Setters *)

Definition SetGroup {A} `{Auditable A} (e : Event) (group : A) : Event :=
  mkEvent (ToAuditableID group) (EAction e) (EActionType e) (ActorName e)
    (ActorID e) (Location e) (OccuredAt e) (TargetName e) (TargetID e)
    (Metadata e).

Definition SetActor {A} `{Auditable A} (e : Event) (actor : A) : Event :=
  let e := mkEvent (Group e) (EAction e) (EActionType e)
             (ToAuditableName actor) (ActorID e) (Location e) (OccuredAt e)
             (TargetName e) (TargetID e) (Metadata e) in
  mkEvent (Group e) (EAction e) (EActionType e) (ActorName e)
    (ToAuditableID actor) (Location e) (OccuredAt e) (TargetName e)
    (TargetID e) (Metadata e).

Definition SetTarget {A} `{Auditable A} (e : Event) (target : A) : Event :=
  let e := mkEvent (Group e) (EAction e) (EActionType e) (ActorName e)
             (ActorID e) (Location e) (OccuredAt e)
             (ToAuditableName target) (TargetID e) (Metadata e) in
  mkEvent (Group e) (EAction e) (EActionType e) (ActorName e) (ActorID e)
    (Location e) (OccuredAt e) (TargetName e) (ToAuditableID target)
    (Metadata e).

Definition SetLocation (e : Event) (location : string) : Event :=
  mkEvent (Group e) (EAction e) (EActionType e) (ActorName e) (ActorID e)
    location (OccuredAt e) (TargetName e) (TargetID e) (Metadata e).

(** ** Metadata *)

(** [addMetadata] on a non-nil map: the new contents and the error. *)
Definition addMetadata_map (m : meta) (key : string) (v : value)
  : meta * option error :=
  if decide (500 <= size m)%nat then (m, Some ErrCapacity)
  else match v with
       | VAuditable a =>
           let nameKey := String.append key "_name" in
           let idKey := String.append key "_id" in
           let m := <[nameKey := VString (ToAuditableName a)]> m in
           let m := <[idKey := VString (ToAuditableID a)]> m in
           (m, None)
       | _ => (<[key := v]> m, None)
       end.

(** The [for k, v := range metadata] loop of [AddMetadata].  A Go map is
    ranged over in an unspecified order; the list is that order. *)
Fixpoint AddMetadata_map (m : meta) (batch : list (string * value))
  : meta * option error :=
  match batch with
  | [] => (m, None)
  | (k, v) :: rest =>
      match addMetadata_map m k v with
      | (m', Some err) => (m', Some err)
      | (m', None) => AddMetadata_map m' rest
      end
  end.

(** [e.addMetadata(key, value)]; on a nil map [len] is 0 and the write panics. *)
Definition addMetadata (e : Event) (key : string) (v : value)
  : go (Event * option error) :=
  match Metadata e with
  | None => Panic
  | Some m => let '(m', r) := addMetadata_map m key v in
              Ret (set_Metadata e (Some m'), r)
  end.

(** [e.AddMetadata(metadata)] *)
Definition AddMetadata (e : Event) (batch : list (string * value))
  : go (Event * option error) :=
  match Metadata e with
  | None => match batch with [] => Ret (e, None) | _ => Panic end
  | Some m => let '(m', r) := AddMetadata_map m batch in
              Ret (set_Metadata e (Some m'), r)
  end.

(** ** Constructors *)

(** [NewEvent]: [hostname] is the result of [os.Hostname()] ([None] on
    error) and [now] the value of [time.Now().UTC()]. *)
Definition NewEvent (hostname : option string) (now : Time)
    (action : Action) (actionType : ActionType) : Event :=
  let location := match hostname with Some h => h | None => "" end in
  mkEvent "" action actionType "" "" location now "" "" (Some ∅).

(** [NewEventWithMetadata] *)
Definition NewEventWithMetadata (hostname : option string) (now : Time)
    (action : Action) (actionType : ActionType)
    (metadata : list (string * value)) : go (Event * option error) :=
  let event := NewEvent hostname now action actionType in
  match AddMetadata event metadata with
  | Panic => Panic
  | Ret (_, Some err) => Ret (zero_event, Some err)
  | Ret (event, None) => Ret (event, None)
  end.

(** ** HTTP requests *)

(** [validHeaderFieldByte] of net/textproto: the token characters. *)
Definition validHeaderFieldByte (c : Ascii.ascii) : bool :=
  let n := Ascii.nat_of_ascii c in
  ((48 <=? n) && (n <=? 57))%nat || ((65 <=? n) && (n <=? 90))%nat
  || ((97 <=? n) && (n <=? 122))%nat
  || existsb (Ascii.eqb c) (String.list_ascii_of_string "!#$%&'*+-.^_`|~").

Fixpoint canonicalize (upper : bool) (s : string) : string :=
  match s with
  | EmptyString => EmptyString
  | String c rest =>
      let n := Ascii.nat_of_ascii c in
      let c' := if upper && (97 <=? n)%nat && (n <=? 122)%nat
                then Ascii.ascii_of_nat (n - 32)
                else if negb upper && (65 <=? n)%nat && (n <=? 90)%nat
                then Ascii.ascii_of_nat (n + 32)
                else c in
      String c' (canonicalize (Ascii.eqb c' (Ascii.ascii_of_nat 45) (* '-' *)) rest)
  end.

(** [textproto.CanonicalMIMEHeaderKey]: keys with a byte outside the token
    characters are returned unchanged. *)
Definition CanonicalMIMEHeaderKey (s : string) : string :=
  if forallb validHeaderFieldByte (String.list_ascii_of_string s)
  then canonicalize true s else s.

(** [http.Header] is a [map[string][]string] keyed by canonical names. *)
Abbreviation Header := (gmap string (list string)).

(** [Header.Get]: the first value of the key, or "" *)
Definition Header_Get (h : Header) (key : string) : string :=
  match h !! CanonicalMIMEHeaderKey key with
  | Some (v :: _) => v
  | _ => ""
  end.

(** The parts of an [*http.Request] the code reads; [URL] is
    [r.URL.String()]. *)
Record Request := mkRequest {
  RemoteAddr : string;
  Method : string;
  URL : string;
  RHeader : Header
}.

(** [NewEventWithHTTP].  [range] is the order in which the Go runtime visits
    the entries of a map in a [for ... range] loop. *)
Definition NewEventWithHTTP (range : meta -> list (string * value))
    (hostname : option string) (now : Time)
    (action : Action) (actionType : ActionType) (r : Request) : go Event :=
  let event := NewEvent hostname now action actionType in
  let event := SetLocation event (RemoteAddr r) in
  let metadata : meta :=
    <["request_url" := VString (URL r)]> (<["http_method" := VString (Method r)]> ∅) in
  let userAgent := Header_Get (RHeader r) "User-Agent" in
  let metadata := if decide (userAgent <> "") then
                    <["user_agent" := VString userAgent]> metadata
                  else metadata in
  let requestID := Header_Get (RHeader r) "X-Request-ID" in
  let metadata := if decide (requestID <> "") then
                    <["request_id" := VString requestID]> metadata
                  else metadata in
  match AddMetadata event (range metadata) with
  | Panic => Panic
  | Ret (event, _) => Ret event
  end.

(** ** JSON serialization *)

(** [utf8.DecodeRuneInString] of the front of [s], as [encoding/json] uses
    it: [Some size] for a valid encoding of [size] bytes, [None] for the
    [(RuneError, 1)] result.  The lead byte selects the length and the range
    of the second byte as in the [first] and [acceptRanges] tables of
    unicode/utf8; further bytes lie in 0x80..0xBF. *)
Definition byte_in (lo hi : nat) (c : Ascii.ascii) : bool :=
  ((lo <=? Ascii.nat_of_ascii c) && (Ascii.nat_of_ascii c <=? hi))%nat.

Definition utf8_lead (n : nat) : nat * nat * nat :=
  if ((194 <=? n) && (n <=? 223))%nat then (2, 128, 191)%nat
  else if (n =? 224)%nat then (3, 160, 191)%nat
  else if ((225 <=? n) && (n <=? 236))%nat then (3, 128, 191)%nat
  else if (n =? 237)%nat then (3, 128, 159)%nat
  else if ((238 <=? n) && (n <=? 239))%nat then (3, 128, 191)%nat
  else if (n =? 240)%nat then (4, 144, 191)%nat
  else if ((241 <=? n) && (n <=? 243))%nat then (4, 128, 191)%nat
  else if (n =? 244)%nat then (4, 128, 143)%nat
  else (0, 0, 0)%nat.

Definition DecodeRuneSize (s : string) : option nat :=
  match s with
  | EmptyString => None
  | String b0 rest =>
      let n := Ascii.nat_of_ascii b0 in
      if (n <? 128)%nat then Some 1%nat else
      let '(sz, lo, hi) := utf8_lead n in
      if (sz =? 0)%nat then None else
      match rest with
      | String b1 rest1 =>
          if negb (byte_in lo hi b1) then None
          else if (sz =? 2)%nat then Some 2%nat
          else match rest1 with
               | String b2 rest2 =>
                   if negb (byte_in 128 191 b2) then None
                   else if (sz =? 3)%nat then Some 3%nat
                   else match rest2 with
                        | String b3 _ => if byte_in 128 191 b3 then Some 4%nat else None
                        | EmptyString => None
                        end
               | EmptyString => None
               end
      | EmptyString => None
      end
  end.

(** The UTF-8 encoding of U+FFFD. *)
Definition replacement_char : string :=
  String (Ascii.ascii_of_nat 239)
    (String (Ascii.ascii_of_nat 191) (String (Ascii.ascii_of_nat 189) EmptyString)).

(** The string [appendString] of encoding/json writes for a Go string,
    before escaping: the bytes of each valid UTF-8 sequence are copied, and
    every byte on which [DecodeRuneInString] reports [(RuneError, 1)] becomes
    U+FFFD.  [copy] counts the bytes of the current sequence still to copy. *)
Fixpoint go_string_aux (copy : nat) (s : string) : string :=
  match s with
  | EmptyString => EmptyString
  | String b rest =>
      match copy with
      | S c => String b (go_string_aux c rest)
      | O => match DecodeRuneSize s with
             | Some size => String b (go_string_aux (pred size) rest)
             | None => String.append replacement_char (go_string_aux 0 rest)
             end
      end
  end.

Definition go_string (s : string) : string := go_string_aux 0 s.

Definition encode_value (v : value) : option json :=
  match v with
  | VString s => Some (JStr (go_string s))
  | VAuditable a => aud_json a
  | VOther enc => enc
  end.

(** Map keys are written in increasing byte order. *)
Definition key_le (p q : string * value) : Prop := String.le p.1 q.1.

#[global] Instance key_le_dec : RelDecision key_le.
Proof. intros p q. unfold key_le. apply _. Defined.

(** Map keys are sorted as Go strings, then written as JSON strings. *)
Definition encode_entry (kv : string * value) : option (string * json) :=
  j ← encode_value kv.2; Some (go_string kv.1, j).

(** A [map[string]interface{}]; the nil map encodes as [null]. *)
Definition encode_meta (md : option meta) : option json :=
  match md with
  | None => Some JNull
  | Some m =>
      fields ← mapM encode_entry (merge_sort key_le (map_to_list m));
      Some (JObj fields)
  end.

(** [Time.MarshalJSON] *)
Definition encode_time (t : Time) : option json :=
  if decide (0 <= t_year t <= 9999) then Some (JStr (t_rfc3339 t)) else None.

(** [json.Marshal(e)]: the struct's fields in declaration order under their
    [json:"..."] tags, each Go string written by [go_string]. *)
Definition json_Marshal (e : Event) : option json :=
  t ← encode_time (OccuredAt e);
  md ← encode_meta (Metadata e);
  Some (JObj [("group", JStr (go_string (Group e)));
              ("action", JStr (go_string (EAction e)));
              ("action_type", JStr (go_string (EActionType e)));
              ("actor_name", JStr (go_string (ActorName e)));
              ("actor_id", JStr (go_string (ActorID e)));
              ("location", JStr (go_string (Location e)));
              ("occured_at", t);
              ("target_name", JStr (go_string (TargetName e)));
              ("target_id", JStr (go_string (TargetID e)));
              ("metadata", md)]).

(** ** Publishing *)

Section Publish.

(** [client.PublishEvent]: the transport, given the marshalled body. *)
Variable PublishEvent : json -> option error.

(** The [for k, v := range globalMetadata { e.Metadata[k] = v }] loop;
    [globalMetadata] is the package-level default metadata at the time of the
    call.  On a nil map the first write panics. *)
Definition merge_global (globalMetadata : meta) (md : option meta)
  : go (option meta) :=
  match md with
  | None => if decide (size globalMetadata = 0)%nat then Ret None else Panic
  | Some m => Ret (Some (map_fold (fun k v acc => <[k := v]> acc) m globalMetadata))
  end.

(** [e.Publish()]: the caller's event after the call, the returned error,
    and the bodies handed to the transport. *)
Definition Publish (globalMetadata : meta) (e : Event)
  : go (Event * option error * list json) :=
  match merge_global globalMetadata (Metadata e) with
  | Panic => Panic
  | Ret md =>
      let e := set_Metadata e md in
      match json_Marshal e with
      | None => Ret (e, Some ErrSerialization, [])
      | Some body => Ret (e, PublishEvent body, [body])
      end
  end.

End Publish.

(** ** Concrete inputs *)

Definition key_of (n : nat) : string := String.append "key" (pretty (N.of_nat n)).

(** A metadata map with [n] literal entries "key0" .. "key<n-1>". *)
Definition filler (n : nat) : meta :=
  list_to_map (map (fun i => (key_of i, VString "v")) (seq 0 n)).

Definition filler_batch (n : nat) : list (string * value) :=
  map (fun i => (key_of i, VString "v")) (seq 0 n).

Definition now0 : Time := mkTime 2019 "2019-05-01T01:15:55.619355Z".

Definition user_obj : auditable_obj :=
  mkAuditable "user@email.com" "user_1" (Some (JObj [("ID", JNum 1)])).

(** An event already holding [n] metadata entries. *)
Definition event_with (n : nat) : Event :=
  set_Metadata (NewEvent (Some "app-fe1") now0 "user.login" Create)
    (Some (filler n)).

(** ** Lemmas on [addMetadata] *)

Lemma addMetadata_map_error (m : meta) k v err :
  snd (addMetadata_map m k v) = Some err ->
  err = ErrCapacity /\ fst (addMetadata_map m k v) = m /\ (500 <= size m)%nat.
Proof.
  unfold addMetadata_map. case_decide as Hle.
  - simpl. intros [= <-]. auto.
  - destruct v; simpl; discriminate.
Qed.

Lemma addMetadata_map_full (m : meta) k v :
  (500 <= size m)%nat -> addMetadata_map m k v = (m, Some ErrCapacity).
Proof. intros Hle. unfold addMetadata_map. by case_decide. Qed.

Lemma AddMetadata_map_app (m : meta) pre post :
  snd (AddMetadata_map m pre) = None ->
  AddMetadata_map m (pre ++ post) = AddMetadata_map (fst (AddMetadata_map m pre)) post.
Proof.
  revert m. induction pre as [|[k v] pre IH]; intros m; simpl; [done|].
  destruct (addMetadata_map m k v) as [m' [err|]]; simpl; [discriminate|].
  apply IH.
Qed.

(** A failing batch stops at its first entry met with 500 entries present;
    what the entries before it wrote stays written. *)
Lemma AddMetadata_map_decomp (m : meta) batch err :
  snd (AddMetadata_map m batch) = Some err ->
  exists pre kv post,
    batch = pre ++ kv :: post /\
    snd (AddMetadata_map m pre) = None /\
    (500 <= size (fst (AddMetadata_map m pre)))%nat /\
    fst (AddMetadata_map m batch) = fst (AddMetadata_map m pre) /\
    err = ErrCapacity.
Proof.
  revert m. induction batch as [|[k v] batch IH]; intros m; simpl; [discriminate|].
  destruct (addMetadata_map m k v) as [m' [e|]] eqn:Hadd.
  - intros [= <-].
    pose proof (addMetadata_map_error m k v e) as He. rewrite Hadd in He.
    destruct (He eq_refl) as (-> & Hm & Hle). simpl in Hm. subst m'.
    exists [], (k, v), batch. simpl. auto.
  - intros Herr. destruct (IH m' Herr) as (pre & kv & post & -> & Hpre & Hle & Hfst & ->).
    exists ((k, v) :: pre), kv, post. simpl. rewrite Hadd. auto.
Qed.

(** Literal entries with distinct keys, with room for all of them, are all
    written. *)
Lemma AddMetadata_map_literals (m : meta) batch :
  Forall (fun kv => forall a, kv.2 <> VAuditable a) batch ->
  NoDup batch.*1 ->
  (size m + length batch <= 500)%nat ->
  AddMetadata_map m batch = (list_to_map batch ∪ m, None).
Proof.
  revert m. induction batch as [|[k v] batch IH]; intros m Hlit Hnd Hsz; simpl.
  - by rewrite (left_id_L ∅ (∪)).
  - inversion Hlit as [|? ? Hv Hlit']; subst.
    inversion Hnd as [|? ? Hk Hnd']; subst.
    simpl in Hsz.
    assert (addMetadata_map m k v = (<[k := v]> m, None)) as ->.
    { unfold addMetadata_map. case_decide; [lia|].
      destruct v as [s|a|enc]; [done| |done]. by destruct (Hv a). }
    rewrite IH; [| done | done |].
    + f_equal. rewrite <-insert_union_l.
      rewrite insert_union_r; [done|]. by apply not_elem_of_list_to_map_1.
    + rewrite map_size_insert. destruct (m !! k); simpl; lia.
Qed.

(** ** Claims on the event builder *)

(** C1 (the 500-entry cap): the guard [len(e.Metadata) >= 500] is checked
    once before an addition, and a describable value then writes two keys.
    An event holding 499 entries accepts a describable value under a fresh
    key without error and ends with 501 entries. *)
Lemma addMetadata_boundary_overflow :
  match AddMetadata (event_with 499) [("parent_tweet", VAuditable user_obj)] with
  | Ret (e, None) => option_map size (Metadata e) = Some 501%nat
  | _ => False
  end.
Proof. vm_compute. reflexivity. Qed.

(** C2 (counterexample): adding a describable value under "user" to metadata
    already holding the literal "user" keeps that literal entry. *)
Lemma addMetadata_auditable_keeps_literal :
  match AddMetadata
          (set_Metadata (event_with 0) (Some {[ "user" := VString "literal" ]}))
          [("user", VAuditable user_obj)] with
  | Ret (e, None) => (Metadata e ≫= lookup "user") = Some (VString "literal")
  | _ => False
  end.
Proof. vm_compute. reflexivity. Qed.

Lemma name_id_keys_distinct (k : string) :
  String.append k "_name" <> String.append k "_id".
Proof. intros H. apply (inj (String.append k)) in H. discriminate. Qed.

(** C2 (amended): adding a describable value [a] under key [k] panics on
    an event whose metadata map is nil (the zero Event); with 500 or more
    entries it fails with the capacity error and leaves the event as it was;
    with fewer than 500 entries it succeeds, binds [k_name] to the value's
    display name and [k_id] to its stable ID, and leaves every other key,
    [k] included, as it was: a literal at [k] is kept, and [k] is not
    created. *)
Theorem addMetadata_auditable_expands (e : Event) (k : string) (a : auditable_obj) :
  (Metadata e = None -> addMetadata e k (VAuditable a) = Panic) /\
  (forall m, Metadata e = Some m -> (500 <= size m)%nat ->
     addMetadata e k (VAuditable a) = Ret (e, Some ErrCapacity)) /\
  (forall m, Metadata e = Some m -> (size m < 500)%nat ->
   exists m',
     addMetadata e k (VAuditable a) = Ret (set_Metadata e (Some m'), None) /\
     m' !! String.append k "_name" = Some (VString (ToAuditableName a)) /\
     m' !! String.append k "_id" = Some (VString (ToAuditableID a)) /\
     (forall j, j <> String.append k "_name" -> j <> String.append k "_id" ->
                m' !! j = m !! j)).
Proof.
  split; [|split].
  - intros Hm. unfold addMetadata. by rewrite Hm.
  - intros m Hm Hsz. unfold addMetadata. rewrite Hm, addMetadata_map_full by done.
    destruct e; simpl in *; by subst.
  - intros m Hm Hsz. unfold addMetadata. rewrite Hm. unfold addMetadata_map.
    case_decide; [lia|]. simpl.
    eexists. split; [reflexivity|].
    pose proof (name_id_keys_distinct k).
    split; [|split].
    + rewrite lookup_insert_ne by congruence. apply lookup_insert_eq.
    + apply lookup_insert_eq.
    + intros j Hn Hi. rewrite !lookup_insert_ne by congruence. done.
Qed.

Lemma addMetadata_auditable_expands_witness :
  (Metadata zero_event = None /\
   addMetadata zero_event "parent_tweet" (VAuditable user_obj) = Panic) /\
  (Metadata (event_with 500) = Some (filler 500) /\ (500 <= size (filler 500))%nat /\
   addMetadata (event_with 500) "parent_tweet" (VAuditable user_obj)
     = Ret (event_with 500, Some ErrCapacity)) /\
  (Metadata (event_with 3) = Some (filler 3) /\ (size (filler 3) < 500)%nat /\
   exists m',
     addMetadata (event_with 3) "parent_tweet" (VAuditable user_obj)
       = Ret (set_Metadata (event_with 3) (Some m'), None) /\
     m' !! "parent_tweet_name" = Some (VString (ToAuditableName user_obj)) /\
     m' !! "parent_tweet_id" = Some (VString (ToAuditableID user_obj)) /\
     (forall j, j <> "parent_tweet_name" -> j <> "parent_tweet_id" ->
                m' !! j = filler 3 !! j)).
Proof.
  assert (H0 : Metadata zero_event = None) by reflexivity.
  assert (H500 : Metadata (event_with 500) = Some (filler 500)) by reflexivity.
  assert (S500 : (500 <= size (filler 500))%nat) by (vm_compute; lia).
  assert (H3 : Metadata (event_with 3) = Some (filler 3)) by reflexivity.
  assert (S3 : (size (filler 3) < 500)%nat) by (vm_compute; lia).
  split; [split; [exact H0|]|split; [split; [exact H500|split; [exact S500|]]|]].
  - exact (proj1 (addMetadata_auditable_expands zero_event "parent_tweet" user_obj) H0).
  - exact (proj1 (proj2 (addMetadata_auditable_expands (event_with 500) "parent_tweet"
             user_obj)) (filler 500) H500 S500).
  - split; [exact H3|]. split; [exact S3|].
    exact (proj2 (proj2 (addMetadata_auditable_expands (event_with 3) "parent_tweet"
             user_obj)) (filler 3) H3 S3).
Defined.

(** C4: when [AddMetadata] returns an error, it is the capacity error, met
    at some entry [kv] of the batch; the event's metadata is exactly what the
    entries before [kv] wrote (no rollback), and [kv] and the entries after
    it are not applied. *)
Theorem AddMetadata_error_keeps_prefix (e e' : Event) (m : meta)
    (batch : list (string * value)) (err : error) :
  Metadata e = Some m ->
  AddMetadata e batch = Ret (e', Some err) ->
  err = ErrCapacity /\
  exists pre kv post,
    batch = pre ++ kv :: post /\
    snd (AddMetadata_map m pre) = None /\
    (500 <= size (fst (AddMetadata_map m pre)))%nat /\
    e' = set_Metadata e (Some (fst (AddMetadata_map m pre))).
Proof.
  intros Hm. unfold AddMetadata. rewrite Hm.
  destruct (AddMetadata_map m batch) as [m' r] eqn:Hrun.
  intros [= <- ->].
  destruct (AddMetadata_map_decomp m batch err) as (pre & kv & post & Hb & Hpre & Hle & Hfst & ->);
    [by rewrite Hrun|].
  split; [done|]. exists pre, kv, post. rewrite Hrun in Hfst. simpl in Hfst. subst m'.
  auto.
Qed.

(** The spec's boundary test: 499 entries, then a batch of three. *)
Definition boundary_batch : list (string * value) :=
  [("body_was", VString "a"); ("body", VString "b"); ("hostname", VString "c")].

Lemma AddMetadata_error_keeps_prefix_witness :
  Metadata (event_with 499) = Some (filler 499) /\
  AddMetadata (event_with 499) boundary_batch
    = Ret (set_Metadata (event_with 499)
             (Some (<["body_was" := VString "a"]> (filler 499))),
           Some ErrCapacity) /\
  (ErrCapacity = ErrCapacity /\
   exists pre kv post,
     boundary_batch = pre ++ kv :: post /\
     snd (AddMetadata_map (filler 499) pre) = None /\
     (500 <= size (fst (AddMetadata_map (filler 499) pre)))%nat /\
     set_Metadata (event_with 499) (Some (<["body_was" := VString "a"]> (filler 499)))
       = set_Metadata (event_with 499) (Some (fst (AddMetadata_map (filler 499) pre)))).
Proof.
  split; [reflexivity|]. split; [vm_compute; reflexivity|].
  apply (AddMetadata_error_keeps_prefix (event_with 499)
           (set_Metadata (event_with 499)
              (Some (<["body_was" := VString "a"]> (filler 499))))
           (filler 499) boundary_batch ErrCapacity);
    [reflexivity | vm_compute; reflexivity].
Defined.

(** C7: [SetActor e d] is [e] with ActorName := d.ToAuditableName() and
    ActorID := d.ToAuditableID(), every other field unchanged, and a second
    identical call changes nothing. *)
Theorem SetActor_assigns_idempotent {A} `{Auditable A} (e : Event) (d : A) :
  SetActor e d =
    mkEvent (Group e) (EAction e) (EActionType e) (ToAuditableName d)
      (ToAuditableID d) (Location e) (OccuredAt e) (TargetName e) (TargetID e)
      (Metadata e) /\
  SetActor (SetActor e d) d = SetActor e d.
Proof. split; reflexivity. Qed.

(** C10: when the initial batch of [NewEventWithMetadata] fails, the event
    returned is [Event{}]: empty strings, zero time, nil metadata, whatever
    the batch had written before failing. *)
Theorem NewEventWithMetadata_error_zero hostname now action actionType
    (metadata : list (string * value)) (e : Event) (err : error) :
  NewEventWithMetadata hostname now action actionType metadata = Ret (e, Some err) ->
  e = zero_event /\ err = ErrCapacity.
Proof.
  unfold NewEventWithMetadata, AddMetadata. simpl.
  destruct (AddMetadata_map ∅ metadata) as [m' r] eqn:Hrun.
  destruct r as [err'|]; [|discriminate].
  intros [= <- <-]. split; [done|].
  destruct (AddMetadata_map_decomp ∅ metadata err') as (_ & _ & _ & _ & _ & _ & _ & ->);
    [by rewrite Hrun|done].
Qed.

Lemma NewEventWithMetadata_error_zero_witness :
  NewEventWithMetadata (Some "app-fe1") now0 "user.login" Create (filler_batch 501)
    = Ret (zero_event, Some ErrCapacity) /\
  (zero_event = zero_event /\ ErrCapacity = ErrCapacity).
Proof.
  split; [vm_compute; reflexivity|].
  apply (NewEventWithMetadata_error_zero (Some "app-fe1") now0 "user.login" Create
           (filler_batch 501) zero_event ErrCapacity).
  vm_compute. reflexivity.
Defined.

(** ** Reading a JSON object *)

Fixpoint assoc_lookup (k : string) (l : list (string * json)) : option json :=
  match l with
  | [] => None
  | (k', j) :: rest => if decide (k = k') then Some j else assoc_lookup k rest
  end.

(** The member [k] of a JSON object. *)
Definition json_field (k : string) (j : json) : option json :=
  match j with JObj fields => assoc_lookup k fields | _ => None end.

Definition body_of (e : Event) : json :=
  match json_Marshal e with Some b => b | None => JNull end.

(** ** Lemmas on serialization and [Publish] *)

Lemma assoc_lookup_elem (l : list (string * json)) k x :
  NoDup l.*1 -> (k, x) ∈ l -> assoc_lookup k l = Some x.
Proof.
  induction l as [|[k' x'] l IH]; simpl; intros Hnd Hin.
  - by apply not_elem_of_nil in Hin.
  - inversion Hnd as [|? ? Hk' Hnd']; subst.
    apply elem_of_cons in Hin as [[= -> ->]|Hin].
    + by case_decide.
    + case_decide as Heq; [|by apply IH].
      subst k'. destruct Hk'. apply list_elem_of_fmap. by exists (k, x).
Qed.

(** The first member named [n] of an object is found when every member of
    that name carries the same value. *)
Lemma assoc_lookup_unique (l : list (string * json)) n x :
  (n, x) ∈ l -> (forall y, (n, y) ∈ l -> y = x) -> assoc_lookup n l = Some x.
Proof.
  induction l as [|[k' x'] l IH]; simpl; intros Hin Huniq.
  - by apply not_elem_of_nil in Hin.
  - case_decide as Heq.
    + subst k'. f_equal. apply Huniq. apply elem_of_cons. by left.
    + apply elem_of_cons in Hin as [[= -> ->]|Hin]; [done|].
      apply IH; [done|]. intros y Hy. apply Huniq. apply elem_of_cons. by right.
Qed.

Lemma encode_entries_Forall2 (l : list (string * value)) fields :
  mapM encode_entry l = Some fields ->
  Forall2 (fun kv f => exists j, encode_value kv.2 = Some j /\ f = (go_string kv.1, j))
    l fields.
Proof.
  intros Hf. apply mapM_Some_1 in Hf. eapply Forall2_impl; [exact Hf|].
  intros [k v] f He. unfold encode_entry in He. simpl in He.
  destruct (encode_value v) as [j|] eqn:Hv; simpl in He; [|discriminate].
  inversion He; subst. by exists j.
Qed.

(** Each entry of a serialized list gives a member named by its key as a
    JSON string, and each member comes from such an entry. *)
Lemma encode_entries (l : list (string * value)) fields :
  mapM encode_entry l = Some fields ->
  (forall k v, (k, v) ∈ l -> exists j, encode_value v = Some j /\ (go_string k, j) ∈ fields) /\
  (forall n j, (n, j) ∈ fields ->
     exists k v, (k, v) ∈ l /\ go_string k = n /\ encode_value v = Some j).
Proof.
  intros Hf. pose proof (encode_entries_Forall2 l fields Hf) as H2.
  split.
  - intros k v Hin. apply list_elem_of_lookup in Hin as [i Hi].
    destruct (Forall2_lookup_l _ _ _ i _ H2 Hi) as (f & Hf' & j & Hj & ->).
    exists j. split; [done|]. by apply list_elem_of_lookup_2 with i.
  - intros n j Hin. apply list_elem_of_lookup in Hin as [i Hi].
    destruct (Forall2_lookup_r _ _ _ i _ H2 Hi) as ([k v] & Hl & j' & Hj & He).
    simpl in *. inversion He; subst.
    exists k, v. split; [by apply list_elem_of_lookup_2 with i|]. done.
Qed.

Lemma sorted_entries_perm (M : meta) :
  merge_sort key_le (map_to_list M) ≡ₚ map_to_list M.
Proof. apply merge_sort_Permutation. Qed.

(** An entry of a serialized map is a member of the JSON object, named by
    its key as a JSON string; it is the member a reader finds under that
    name when no other key of the map has the same JSON name. *)
Lemma encode_meta_lookup (M : meta) fields k v :
  encode_meta (Some M) = Some (JObj fields) -> M !! k = Some v ->
  exists x, encode_value v = Some x /\ (go_string k, x) ∈ fields /\
    ((forall k', is_Some (M !! k') -> go_string k' = go_string k -> k' = k) ->
     assoc_lookup (go_string k) fields = Some x).
Proof.
  unfold encode_meta.
  destruct (mapM encode_entry (merge_sort key_le (map_to_list M))) as [fs|] eqn:Hfs;
    simpl; [|discriminate].
  intros [= <-] Hk.
  destruct (encode_entries _ fs Hfs) as [Hall Hback].
  destruct (Hall k v) as (x & Hx & Hin).
  { rewrite sorted_entries_perm. by apply elem_of_map_to_list. }
  exists x. split; [done|]. split; [done|]. intros Huniq.
  apply assoc_lookup_unique; [done|]. intros y Hy.
  destruct (Hback _ _ Hy) as (k' & v' & Hin' & Hn & Hy').
  rewrite sorted_entries_perm, elem_of_map_to_list in Hin'.
  assert (k' = k) as -> by (apply Huniq; [by exists v'|done]).
  congruence.
Qed.

(** A map holding a value [json.Marshal] rejects does not serialize. *)
Lemma encode_meta_None (M : meta) k v :
  M !! k = Some v -> encode_value v = None -> encode_meta (Some M) = None.
Proof.
  intros Hk Hv. unfold encode_meta.
  rewrite mapM_None_2; [done|].
  apply Exists_exists. exists (k, v). split.
  - rewrite sorted_entries_perm. by apply elem_of_map_to_list.
  - unfold encode_entry. simpl. by rewrite Hv.
Qed.

Lemma json_Marshal_shape (e : Event) body :
  json_Marshal e = Some body ->
  exists t md,
    encode_time (OccuredAt e) = Some t /\ encode_meta (Metadata e) = Some md /\
    body = JObj [("group", JStr (go_string (Group e)));
                 ("action", JStr (go_string (EAction e)));
                 ("action_type", JStr (go_string (EActionType e)));
                 ("actor_name", JStr (go_string (ActorName e)));
                 ("actor_id", JStr (go_string (ActorID e)));
                 ("location", JStr (go_string (Location e)));
                 ("occured_at", t);
                 ("target_name", JStr (go_string (TargetName e)));
                 ("target_id", JStr (go_string (TargetID e)));
                 ("metadata", md)].
Proof.
  unfold json_Marshal.
  destruct (encode_time (OccuredAt e)) as [t|]; simpl; [|discriminate].
  destruct (encode_meta (Metadata e)) as [md|]; simpl; [|discriminate].
  intros [= <-]. eauto.
Qed.

(** The default-metadata loop writes every default over the event's map. *)
Lemma map_fold_insert_union (g m : meta) :
  map_fold (fun k v acc => <[k := v]> acc) m g = g ∪ m.
Proof.
  induction g as [|i x g Hi IH] using map_ind.
  - rewrite map_fold_empty. by rewrite (left_id_L ∅ (∪)).
  - rewrite map_fold_insert_L; [| |done].
    + by rewrite IH, insert_union_l.
    + intros j1 j2 z1 z2 y Hne _ _. by apply insert_insert_ne.
Qed.

Lemma merge_global_Some (g m : meta) :
  merge_global g (Some m) = Ret (Some (g ∪ m)).
Proof. unfold merge_global. by rewrite map_fold_insert_union. Qed.

Lemma merge_global_None (g : meta) md :
  merge_global g None = Ret md -> g = ∅ /\ md = None.
Proof.
  unfold merge_global. case_decide as Hg; [|discriminate].
  intros [= <-]. split; [by apply map_size_empty_inv|done].
Qed.

Lemma set_Metadata_same (e : Event) : set_Metadata e (Metadata e) = e.
Proof. by destruct e. Qed.

Lemma set_Metadata_twice (e : Event) md md' :
  set_Metadata (set_Metadata e md) md' = set_Metadata e md'.
Proof. done. Qed.

(** ** Claims on [Publish] *)

Section PublishClaims.

Variable PublishEvent : json -> option error.

(** How [Publish] ends once the defaults are merged. *)
Lemma Publish_cases (g : meta) (e e' : Event) r sent :
  Publish PublishEvent g e = Ret (e', r, sent) ->
  exists md, merge_global g (Metadata e) = Ret md /\ e' = set_Metadata e md /\
  ((json_Marshal e' = None /\ r = Some ErrSerialization /\ sent = []) \/
   (exists body, json_Marshal e' = Some body /\ r = PublishEvent body /\ sent = [body])).
Proof.
  unfold Publish. destruct (merge_global g (Metadata e)) as [md|]; [|discriminate].
  destruct (json_Marshal (set_Metadata e md)) as [body|] eqn:Hj; intros H;
    inversion H; subst; exists md; eauto 10.
Qed.

(** C3 (amended): in every body handed to the transport, the "metadata"
    object has, for each default [k], a member named [k] as a JSON string
    ([go_string k]) holding the encoding of the default's value; the
    serialized map holds the default, not the event's own value, at [k]; and
    when no other key of that map has the same JSON name, the member a
    reader finds under that name is the default's. *)
Theorem Publish_defaults_in_record (g : meta) (e e' : Event) r sent body :
  Publish PublishEvent g e = Ret (e', r, sent) -> body ∈ sent ->
  forall k v, g !! k = Some v ->
  exists mm fields j,
    Metadata e' = Some mm /\ mm !! k = Some v /\
    json_field "metadata" body = Some (JObj fields) /\
    encode_value v = Some j /\ (go_string k, j) ∈ fields /\
    ((forall k', is_Some (mm !! k') -> go_string k' = go_string k -> k' = k) ->
     json_field (go_string k) (JObj fields) = Some j).
Proof.
  intros Hp Hin k v Hk.
  destruct (Publish_cases g e e' r sent Hp) as (md & Hmerge & -> & Hend).
  destruct Hend as [(_ & _ & ->)|(body' & Hj & _ & ->)];
    [by apply not_elem_of_nil in Hin|].
  apply list_elem_of_singleton in Hin. subst body'.
  destruct (Metadata e) as [m|] eqn:Hm.
  - rewrite merge_global_Some in Hmerge. inversion Hmerge; subst md.
    destruct (json_Marshal_shape _ _ Hj) as (t & mj & _ & Hmj & ->).
    simpl in Hmj.
    assert (Hgk : (g ∪ m) !! k = Some v) by (by apply lookup_union_Some_l).
    unfold encode_meta in Hmj.
    destruct (mapM encode_entry (merge_sort key_le (map_to_list (g ∪ m))))
      as [fs|] eqn:Hfs; simpl in Hmj; [|discriminate].
    inversion Hmj; subst mj.
    assert (Henc : encode_meta (Some (g ∪ m)) = Some (JObj fs))
      by (unfold encode_meta; by rewrite Hfs).
    destruct (encode_meta_lookup (g ∪ m) fs k v Henc Hgk) as (x & Hx & Hfield & Hfind).
    exists (g ∪ m), fs, x. simpl. auto 10.
  - apply merge_global_None in Hmerge as [-> _].
    by rewrite lookup_empty in Hk.
Qed.

(** C5: a serialization failure is returned before any transport call;
    otherwise the transport's result is returned unchanged; [Publish]
    succeeds exactly when both steps do; a metadata value [json.Marshal]
    rejects is a serialization failure. *)
Theorem Publish_error_order (g : meta) (e e' : Event) r sent :
  Publish PublishEvent g e = Ret (e', r, sent) ->
  (json_Marshal e' = None -> r = Some ErrSerialization /\ sent = []) /\
  (forall body, json_Marshal e' = Some body -> r = PublishEvent body /\ sent = [body]) /\
  (r = None <-> exists body, json_Marshal e' = Some body /\ PublishEvent body = None) /\
  (forall md k v, Metadata e' = Some md -> md !! k = Some v ->
                  encode_value v = None -> json_Marshal e' = None).
Proof.
  intros Hp.
  destruct (Publish_cases g e e' r sent Hp) as (md & _ & _ & Hend).
  split; [|split; [|split]].
  - intros Hj. destruct Hend as [(_ & ? & ?)|(body & Hj' & _)]; [done|congruence].
  - intros body Hj. destruct Hend as [(Hj' & _)|(body' & Hj' & ? & ?)]; [congruence|].
    rewrite Hj in Hj'. inversion Hj'; subst. done.
  - destruct Hend as [(Hj & -> & ->)|(body & Hj & -> & ->)].
    + split; [discriminate|]. intros (body & Hb & _). congruence.
    + split; [eauto|]. intros (body' & Hb & Hpe). rewrite Hj in Hb.
      inversion Hb; subst. done.
  - intros md' k v Hmd Hk Hv. unfold json_Marshal.
    rewrite Hmd, (encode_meta_None md' k v Hk Hv).
    by destruct (encode_time (OccuredAt e')).
Qed.

(** C9: [Publish] writes the defaults into the event's own map before
    serializing, whatever it then returns: afterwards the caller's event holds
    every default entry, its map is the defaults over the old entries, and
    publishing it again merges nothing new and sends the same body. *)
Theorem Publish_merges_into_event (g : meta) (e e' : Event) r sent :
  Publish PublishEvent g e = Ret (e', r, sent) ->
  (forall k v, g !! k = Some v -> (Metadata e' ≫= lookup k) = Some v) /\
  (forall m, Metadata e = Some m -> e' = set_Metadata e (Some (g ∪ m))) /\
  Publish PublishEvent g e' = Ret (e', r, sent).
Proof.
  intros Hp.
  destruct (Publish_cases g e e' r sent Hp) as (md & Hmerge & He' & _).
  destruct (Metadata e) as [m|] eqn:Hm.
  - rewrite merge_global_Some in Hmerge. inversion Hmerge; subst md.
    split; [|split].
    + intros k v Hk. subst e'. simpl. by apply lookup_union_Some_l.
    + intros m' [= <-]. done.
    + rewrite <-Hp. unfold Publish. subst e'. rewrite Hm, merge_global_Some. simpl.
      rewrite map_fold_insert_union, (assoc_L (∪)), (idemp_L (∪)). done.
  - apply merge_global_None in Hmerge as [-> ->].
    split; [|split].
    + intros k v Hk. by rewrite lookup_empty in Hk.
    + intros m' Hm'. discriminate.
    + rewrite <-Hp. unfold Publish. subst e'. simpl. rewrite Hm. done.
Qed.

End PublishClaims.

(** ** Concrete publications *)

Definition transport_ok : json -> option error := fun _ => None.
Definition transport_down : json -> option error :=
  fun _ => Some (ErrTransport "503 Service Unavailable").

Definition defaults1 : meta := {[ "hostname" := VString "app-fe1.aws.amazon.com" ]}.

(** An event with its own "hostname", colliding with the default. *)
Definition event1 : Event :=
  set_Metadata (event_with 0)
    (Some (<["hostname" := VString "per-event"]> {[ "body" := VString "x" ]})).

Definition event1_merged : Event :=
  set_Metadata (event_with 0)
    (Some (<["hostname" := VString "app-fe1.aws.amazon.com"]> {[ "body" := VString "x" ]})).

Lemma Publish_defaults_in_record_witness :
  Publish transport_ok defaults1 event1
    = Ret (event1_merged, None, [body_of event1_merged]) /\
  body_of event1_merged ∈ [body_of event1_merged] /\
  defaults1 !! "hostname" = Some (VString "app-fe1.aws.amazon.com") /\
  exists mm fields j,
    Metadata event1_merged = Some mm /\
    mm !! "hostname" = Some (VString "app-fe1.aws.amazon.com") /\
    json_field "metadata" (body_of event1_merged) = Some (JObj fields) /\
    encode_value (VString "app-fe1.aws.amazon.com") = Some j /\
    (go_string "hostname", j) ∈ fields /\
    ((forall k', is_Some (mm !! k') -> go_string k' = go_string "hostname" ->
                 k' = "hostname") ->
     json_field (go_string "hostname") (JObj fields) = Some j).
Proof.
  assert (Hp : Publish transport_ok defaults1 event1
               = Ret (event1_merged, None, [body_of event1_merged]))
    by (vm_compute; reflexivity).
  assert (Hin : body_of event1_merged ∈ [body_of event1_merged])
    by (by apply list_elem_of_singleton).
  assert (Hk : defaults1 !! "hostname" = Some (VString "app-fe1.aws.amazon.com"))
    by reflexivity.
  split; [exact Hp|]. split; [exact Hin|]. split; [exact Hk|].
  exact (Publish_defaults_in_record transport_ok defaults1 event1 event1_merged
           None [body_of event1_merged] (body_of event1_merged) Hp Hin
           "hostname" (VString "app-fe1.aws.amazon.com") Hk).
Defined.

(** A key that is not valid UTF-8: the single byte 0xFF, and 0xFE. *)
Definition key_ff : string := String (Ascii.ascii_of_nat 255) EmptyString.
Definition key_fe : string := String (Ascii.ascii_of_nat 254) EmptyString.

(** C3 (counterexample): a default under the key 0xFF does not appear
    under that key in the published record: encoding/json writes it as
    U+FFFD.  And a default under 0xFF does not override, for a reader of the
    record, the event's own entry under 0xFE: both are sent under the name
    U+FFFD, the event's own first. *)
Lemma Publish_default_key_renamed :
  match Publish transport_ok {[ key_ff := VString "x" ]} (event_with 0) with
  | Ret (_, None, [body]) =>
      (json_field "metadata" body ≫= json_field key_ff) = None /\
      json_field "metadata" body = Some (JObj [(replacement_char, JStr "x")])
  | _ => False
  end /\
  match Publish transport_ok {[ key_ff := VString "default" ]}
          (set_Metadata (event_with 0) (Some {[ key_fe := VString "per-event" ]})) with
  | Ret (_, None, [body]) =>
      json_field "metadata" body =
        Some (JObj [(replacement_char, JStr "per-event");
                    (replacement_char, JStr "default")]) /\
      (json_field "metadata" body ≫= json_field replacement_char)
        = Some (JStr "per-event")
  | _ => False
  end.
Proof. split; vm_compute; split; reflexivity. Qed.

Lemma Publish_error_order_witness :
  Publish transport_down defaults1 event1
    = Ret (event1_merged, transport_down (body_of event1_merged),
           [body_of event1_merged]) /\
  (json_Marshal event1_merged = None ->
     transport_down (body_of event1_merged) = Some ErrSerialization /\
     [body_of event1_merged] = []) /\
  (forall body, json_Marshal event1_merged = Some body ->
     transport_down (body_of event1_merged) = transport_down body /\
     [body_of event1_merged] = [body]) /\
  (transport_down (body_of event1_merged) = None <->
     exists body, json_Marshal event1_merged = Some body /\ transport_down body = None) /\
  (forall md k v, Metadata event1_merged = Some md -> md !! k = Some v ->
     encode_value v = None -> json_Marshal event1_merged = None).
Proof.
  split; [vm_compute; reflexivity|].
  apply (Publish_error_order transport_down defaults1 event1 event1_merged).
  vm_compute. reflexivity.
Defined.

Lemma Publish_merges_into_event_witness :
  Publish transport_down defaults1 event1
    = Ret (event1_merged, Some (ErrTransport "503 Service Unavailable"),
           [body_of event1_merged]) /\
  (forall k v, defaults1 !! k = Some v -> (Metadata event1_merged ≫= lookup k) = Some v) /\
  (forall m, Metadata event1 = Some m -> event1_merged = set_Metadata event1 (Some (defaults1 ∪ m))) /\
  Publish transport_down defaults1 event1_merged
    = Ret (event1_merged, Some (ErrTransport "503 Service Unavailable"),
           [body_of event1_merged]).
Proof.
  split; [vm_compute; reflexivity|].
  apply (Publish_merges_into_event transport_down defaults1 event1 event1_merged).
  vm_compute. reflexivity.
Defined.

(** ** Claims on [NewEventWithHTTP] *)

Lemma map_size_insert_le (m : meta) i x : (size (<[i := x]> m) <= S (size m))%nat.
Proof. rewrite map_size_insert. destruct (m !! i); simpl; lia. Qed.

(** A map of literal values, ranged over in any order, is copied by
    [AddMetadata] into an empty map. *)
Lemma AddMetadata_map_copy (M : meta) (l : list (string * value)) :
  map_Forall (fun _ v => forall a, v <> VAuditable a) M ->
  (size M <= 500)%nat ->
  l ≡ₚ map_to_list M ->
  AddMetadata_map ∅ l = (M, None).
Proof.
  intros HM Hsz Hperm.
  rewrite AddMetadata_map_literals.
  - rewrite (right_id_L ∅ (∪)). f_equal.
    rewrite (list_to_map_proper l (map_to_list M)); [apply list_to_map_to_list| |done].
    rewrite Hperm. apply NoDup_fst_map_to_list.
  - apply Forall_forall. intros [k v] Hin. rewrite Hperm in Hin.
    apply elem_of_map_to_list in Hin. exact (HM k v Hin).
  - rewrite Hperm. apply NoDup_fst_map_to_list.
  - rewrite (Permutation_length Hperm), length_map_to_list, map_size_empty. lia.
Qed.

(** The metadata [NewEventWithHTTP] builds from the request. *)
Definition http_metadata (r : Request) : meta :=
  let metadata : meta :=
    <["request_url" := VString (URL r)]> (<["http_method" := VString (Method r)]> ∅) in
  let userAgent := Header_Get (RHeader r) "User-Agent" in
  let metadata := if decide (userAgent <> "") then
                    <["user_agent" := VString userAgent]> metadata
                  else metadata in
  let requestID := Header_Get (RHeader r) "X-Request-ID" in
  if decide (requestID <> "") then
    <["request_id" := VString requestID]> metadata
  else metadata.

Lemma map_size_insert_bound (m : meta) i x n :
  (size m <= n)%nat -> (size (<[i := x]> m) <= S n)%nat.
Proof. pose proof (map_size_insert_le m i x). lia. Qed.

Lemma http_metadata_literal (r : Request) :
  map_Forall (fun _ v => forall a, v <> VAuditable a) (http_metadata r) /\
  (size (http_metadata r) <= 4)%nat.
Proof.
  unfold http_metadata.
  repeat case_decide;
    (split; [repeat apply map_Forall_insert_2;
             first [apply map_Forall_empty | intros ??; discriminate]|]);
    repeat apply map_size_insert_bound; rewrite map_size_empty; lia.
Qed.

(** C6: [NewEventWithHTTP] sets the location to the request's remote
    address and the metadata to "http_method" and "request_url", plus
    "user_agent" and "request_id" exactly when [Header.Get] of User-Agent,
    resp. X-Request-ID, is non-empty; with neither header the metadata holds
    only "http_method" and "request_url".  This holds for every order in
    which the runtime ranges over the seeded map. *)
Theorem NewEventWithHTTP_metadata (range : meta -> list (string * value))
    hostname now action actionType (r : Request) :
  (forall m, range m ≡ₚ map_to_list m) ->
  exists e md,
    NewEventWithHTTP range hostname now action actionType r = Ret e /\
    Location e = RemoteAddr r /\ Metadata e = Some md /\
    md !! "http_method" = Some (VString (Method r)) /\
    md !! "request_url" = Some (VString (URL r)) /\
    md !! "user_agent" =
      (if decide (Header_Get (RHeader r) "User-Agent" = "") then None
       else Some (VString (Header_Get (RHeader r) "User-Agent"))) /\
    md !! "request_id" =
      (if decide (Header_Get (RHeader r) "X-Request-ID" = "") then None
       else Some (VString (Header_Get (RHeader r) "X-Request-ID"))) /\
    (forall k, is_Some (md !! k) ->
       k = "http_method" \/ k = "request_url" \/ k = "user_agent" \/ k = "request_id") /\
    (Header_Get (RHeader r) "User-Agent" = "" ->
     Header_Get (RHeader r) "X-Request-ID" = "" ->
     forall k, is_Some (md !! k) <-> k = "http_method" \/ k = "request_url").
Proof.
  intros Hrange.
  destruct (http_metadata_literal r) as [Hlit Hsz].
  exists (set_Metadata (SetLocation (NewEvent hostname now action actionType)
                          (RemoteAddr r)) (Some (http_metadata r))),
         (http_metadata r).
  split.
  { unfold NewEventWithHTTP, AddMetadata. simpl. fold (http_metadata r).
    rewrite (AddMetadata_map_copy (http_metadata r)); [done|done|lia|apply Hrange]. }
  split; [done|]. split; [done|].
  unfold http_metadata.
  repeat case_decide; try congruence; try tauto.
  all: do 4 (split; [by simplify_map_eq|]).
  all: split; [intros k [v Hk]; rewrite ?lookup_insert_Some, ?lookup_empty in Hk;
               naive_solver|].
  all: intros Hua' Hid'; try congruence.
  all: intros k; split;
    [intros [v Hk]; rewrite ?lookup_insert_Some, ?lookup_empty in Hk; naive_solver
    |intros [-> | ->]; by simplify_map_eq].
Qed.

(** A request carrying neither header. *)
Definition request0 : Request :=
  mkRequest "172.31.255.255" "PUT" "http://localhost/tweet/update"
    {[ "Accept" := ["*/*"] ]}.

Lemma NewEventWithHTTP_metadata_witness :
  (forall m : meta, map_to_list m ≡ₚ map_to_list m) /\
  exists e md,
    NewEventWithHTTP map_to_list (Some "app-fe1") now0 "user.login" Create request0 = Ret e /\
    Location e = RemoteAddr request0 /\ Metadata e = Some md /\
    md !! "http_method" = Some (VString (Method request0)) /\
    md !! "request_url" = Some (VString (URL request0)) /\
    md !! "user_agent" =
      (if decide (Header_Get (RHeader request0) "User-Agent" = "") then None
       else Some (VString (Header_Get (RHeader request0) "User-Agent"))) /\
    md !! "request_id" =
      (if decide (Header_Get (RHeader request0) "X-Request-ID" = "") then None
       else Some (VString (Header_Get (RHeader request0) "X-Request-ID"))) /\
    (forall k, is_Some (md !! k) ->
       k = "http_method" \/ k = "request_url" \/ k = "user_agent" \/ k = "request_id") /\
    (Header_Get (RHeader request0) "User-Agent" = "" ->
     Header_Get (RHeader request0) "X-Request-ID" = "" ->
     forall k, is_Some (md !! k) <-> k = "http_method" \/ k = "request_url").
Proof.
  split; [intros m; reflexivity|].
  apply (NewEventWithHTTP_metadata map_to_list (Some "app-fe1") now0 "user.login"
           Create request0).
  intros m. reflexivity.
Defined.

(** ** Claims on the wire record *)

(** C8 (counterexample): [Event{}], which [NewEventWithMetadata] returns on
    a capacity error, serializes with action_type "", none of the four
    letters. *)
Lemma zero_event_action_type_empty :
  ~ (exists body, json_Marshal zero_event = Some body /\
       json_field "action_type" body ∈
         [Some (JStr Create); Some (JStr Read); Some (JStr Update); Some (JStr Delete)]).
Proof.
  intros (body & Hb & Hin). vm_compute in Hb. inversion Hb; subst body.
  vm_compute in Hin.
  repeat (apply elem_of_cons in Hin as [Hin|Hin]; [discriminate Hin|]).
  by apply not_elem_of_nil in Hin.
Qed.

(** Strings of ASCII bytes. *)
Definition is_ascii (s : string) : bool :=
  forallb (fun c => Ascii.nat_of_ascii c <? 128)%nat (String.list_ascii_of_string s).

(** encoding/json writes an ASCII string as it is. *)
Lemma go_string_ascii (s : string) : is_ascii s = true -> go_string s = s.
Proof.
  unfold go_string, is_ascii. induction s as [|c s IH]; simpl; [done|].
  intros [Hc Hs]%andb_prop. unfold DecodeRuneSize. rewrite Hc. simpl.
  f_equal. by apply IH.
Qed.

(** C8 (amended): a serialized event is a JSON object with exactly the
    fields group, action, action_type, actor_name, actor_id, location,
    occured_at, target_name, target_id, metadata; action_type holds the
    event's ActionType as a JSON string ([go_string]: bytes that start no
    valid UTF-8 sequence become U+FFFD), which is the ActionType itself when
    it is ASCII, in particular "C", "R", "U" and "D" for the four constants. *)
Theorem json_Marshal_wire_fields (e : Event) (body : json) :
  json_Marshal e = Some body ->
  exists fields,
    body = JObj fields /\
    fields.*1 = ["group"; "action"; "action_type"; "actor_name"; "actor_id";
                 "location"; "occured_at"; "target_name"; "target_id"; "metadata"] /\
    json_field "action_type" body = Some (JStr (go_string (EActionType e))) /\
    (is_ascii (EActionType e) = true ->
     json_field "action_type" body = Some (JStr (EActionType e))) /\
    (EActionType e ∈ [Create; Read; Update; Delete] ->
     json_field "action_type" body = Some (JStr (EActionType e))).
Proof.
  intros Hj. destruct (json_Marshal_shape e body Hj) as (t & md & _ & _ & ->).
  assert (Hascii : is_ascii (EActionType e) = true ->
     json_field "action_type"
       (JObj [("group", JStr (go_string (Group e)));
              ("action", JStr (go_string (EAction e)));
              ("action_type", JStr (go_string (EActionType e)));
              ("actor_name", JStr (go_string (ActorName e)));
              ("actor_id", JStr (go_string (ActorID e)));
              ("location", JStr (go_string (Location e)));
              ("occured_at", t);
              ("target_name", JStr (go_string (TargetName e)));
              ("target_id", JStr (go_string (TargetID e)));
              ("metadata", md)]) = Some (JStr (EActionType e))).
  { intros Ha. simpl. by rewrite go_string_ascii. }
  eexists. split; [reflexivity|]. split; [reflexivity|].
  split; [reflexivity|]. split; [exact Hascii|].
  intros Hin. apply Hascii.
  repeat (apply elem_of_cons in Hin as [-> | Hin]; [reflexivity|]).
  by apply not_elem_of_nil in Hin.
Qed.

Definition organization : auditable_obj := mkAuditable "workos" "organization_1" None.

(** The README's example event. *)
Definition readme_event : Event :=
  SetLocation
    (SetTarget (SetActor (SetGroup (NewEvent (Some "app-fe1") now0 "user.login" Create)
                            organization) user_obj) user_obj)
    "1.1.1.1".

Example readme_event_body :
  json_Marshal readme_event =
    Some (JObj [("group", JStr "organization_1"); ("action", JStr "user.login");
                ("action_type", JStr "C"); ("actor_name", JStr "user@email.com");
                ("actor_id", JStr "user_1"); ("location", JStr "1.1.1.1");
                ("occured_at", JStr "2019-05-01T01:15:55.619355Z");
                ("target_name", JStr "user@email.com"); ("target_id", JStr "user_1");
                ("metadata", JObj [])]).
Proof. vm_compute. reflexivity. Qed.

Lemma json_Marshal_wire_fields_witness :
  json_Marshal readme_event = Some (body_of readme_event) /\
  exists fields,
    body_of readme_event = JObj fields /\
    fields.*1 = ["group"; "action"; "action_type"; "actor_name"; "actor_id";
                 "location"; "occured_at"; "target_name"; "target_id"; "metadata"] /\
    json_field "action_type" (body_of readme_event)
      = Some (JStr (go_string (EActionType readme_event))) /\
    (is_ascii (EActionType readme_event) = true ->
     json_field "action_type" (body_of readme_event) = Some (JStr (EActionType readme_event))) /\
    (EActionType readme_event ∈ [Create; Read; Update; Delete] ->
     json_field "action_type" (body_of readme_event) = Some (JStr (EActionType readme_event))).
Proof.
  assert (Hj : json_Marshal readme_event = Some (body_of readme_event))
    by (vm_compute; reflexivity).
  split; [exact Hj|].
  exact (json_Marshal_wire_fields readme_event (body_of readme_event) Hj).
Defined.

(** * Further properties of the event builder *)

Definition literal (kv : string * value) : Prop := forall a, kv.2 <> VAuditable a.

Lemma set_Metadata_of (e : Event) (m : meta) :
  Metadata e = Some m -> set_Metadata e (Some m) = e.
Proof. destruct e; simpl; intros ->; done. Qed.

(** Literal entries with distinct keys are all written when the map has room
    for them; the later entries of the map are overwritten. *)
Theorem AddMetadata_literals_written (e : Event) (m : meta)
    (batch : list (string * value)) :
  Metadata e = Some m ->
  Forall literal batch -> NoDup batch.*1 ->
  (size m + length batch <= 500)%nat ->
  AddMetadata e batch = Ret (set_Metadata e (Some (list_to_map batch ∪ m)), None).
Proof.
  intros Hm Hlit Hnd Hsz. unfold AddMetadata. rewrite Hm.
  by rewrite AddMetadata_map_literals.
Qed.

Lemma AddMetadata_literals_written_witness :
  Metadata (event_with 3) = Some (filler 3) /\
  Forall literal boundary_batch /\ NoDup boundary_batch.*1 /\
  (size (filler 3) + length boundary_batch <= 500)%nat /\
  AddMetadata (event_with 3) boundary_batch
    = Ret (set_Metadata (event_with 3)
             (Some (list_to_map boundary_batch ∪ filler 3)), None).
Proof.
  assert (Hlit : Forall literal boundary_batch).
  { repeat constructor; intros a; discriminate. }
  assert (Hnd : NoDup boundary_batch.*1).
  { simpl. repeat constructor; set_solver. }
  assert (Hsz : (size (filler 3) + length boundary_batch <= 500)%nat).
  { vm_compute. lia. }
  split; [reflexivity|]. split; [done|]. split; [done|]. split; [done|].
  exact (AddMetadata_literals_written (event_with 3) (filler 3) boundary_batch
           eq_refl Hlit Hnd Hsz).
Defined.

(** With 500 or more entries every addition is refused with the capacity
    error and changes nothing, even one that would only overwrite a key
    already present. *)
Theorem addMetadata_full_refused (e : Event) (m : meta) :
  Metadata e = Some m -> (500 <= size m)%nat ->
  (forall k v, addMetadata e k v = Ret (e, Some ErrCapacity)) /\
  (forall batch, batch <> [] -> AddMetadata e batch = Ret (e, Some ErrCapacity)).
Proof.
  intros Hm Hsz. split.
  - intros k v. unfold addMetadata. rewrite Hm, addMetadata_map_full by done.
    by rewrite set_Metadata_of.
  - intros [|[k v] batch] Hne; [done|]. unfold AddMetadata. rewrite Hm. simpl.
    rewrite addMetadata_map_full by done. by rewrite set_Metadata_of.
Qed.

Lemma addMetadata_full_refused_witness :
  Metadata (event_with 500) = Some (filler 500) /\ (500 <= size (filler 500))%nat /\
  (forall k v, addMetadata (event_with 500) k v = Ret (event_with 500, Some ErrCapacity)) /\
  (forall batch, batch <> [] ->
     AddMetadata (event_with 500) batch = Ret (event_with 500, Some ErrCapacity)).
Proof.
  assert (Hsz : (500 <= size (filler 500))%nat) by (vm_compute; lia).
  split; [reflexivity|]. split; [done|].
  apply (addMetadata_full_refused (event_with 500) (filler 500)); [reflexivity|done].
Defined.

Lemma addMetadata_map_size_501 (m : meta) k v :
  (size m <= 501)%nat -> (size (fst (addMetadata_map m k v)) <= 501)%nat.
Proof.
  intros Hsz. unfold addMetadata_map. case_decide as Hle; simpl; [done|].
  destruct v; simpl;
    repeat (apply map_size_insert_bound || (etrans; [apply map_size_insert_le|]));
    lia.
Qed.

Lemma addMetadata_map_size_500 (m : meta) k v :
  literal (k, v) -> (size m <= 500)%nat -> (size (fst (addMetadata_map m k v)) <= 500)%nat.
Proof.
  intros Hv Hsz. unfold addMetadata_map. case_decide as Hle; simpl; [done|].
  destruct v as [s|a|enc]; simpl.
  - etrans; [apply map_size_insert_le|]; lia.
  - by destruct (Hv a).
  - etrans; [apply map_size_insert_le|]; lia.
Qed.

(** The metadata count reached through [AddMetadata] is at most 501 (one
    over the cap, through the two keys of a describable value added at 499),
    and at most 500 when only literal values are added. *)
Theorem AddMetadata_size_bound (m : meta) (batch : list (string * value)) :
  ((size m <= 501)%nat -> (size (fst (AddMetadata_map m batch)) <= 501)%nat) /\
  (Forall literal batch -> (size m <= 500)%nat ->
   (size (fst (AddMetadata_map m batch)) <= 500)%nat).
Proof.
  revert m. induction batch as [|[k v] batch IH]; intros m; simpl; [done|].
  split.
  - intros Hsz. pose proof (addMetadata_map_size_501 m k v Hsz) as H1.
    destruct (addMetadata_map m k v) as [m' [err|]]; simpl in *; [done|].
    by apply IH.
  - intros Hlit Hsz. inversion Hlit as [|? ? Hv Hlit']; subst.
    pose proof (addMetadata_map_size_500 m k v Hv Hsz) as H1.
    destruct (addMetadata_map m k v) as [m' [err|]]; simpl in *; [done|].
    by apply IH.
Qed.

(** A batch of distinct literal entries given to [NewEventWithMetadata]
    succeeds, with exactly those entries as metadata, when it has at most 500
    entries, and fails with the capacity error (returning [Event{}]) when it
    has more. *)
Theorem NewEventWithMetadata_literal_batch hostname now action actionType
    (batch : list (string * value)) :
  Forall literal batch -> NoDup batch.*1 ->
  ((length batch <= 500)%nat ->
   NewEventWithMetadata hostname now action actionType batch
     = Ret (set_Metadata (NewEvent hostname now action actionType)
              (Some (list_to_map batch)), None)) /\
  ((500 < length batch)%nat ->
   NewEventWithMetadata hostname now action actionType batch
     = Ret (zero_event, Some ErrCapacity)).
Proof.
  intros Hlit Hnd. unfold NewEventWithMetadata, AddMetadata. simpl. split.
  - intros Hlen. rewrite AddMetadata_map_literals; [|done|done|].
    + by rewrite (right_id_L ∅ (∪)).
    + rewrite map_size_empty. lia.
  - intros Hlen.
    rewrite <-(take_drop 500 batch) in Hlit, Hnd |- *.
    rewrite fmap_app in Hnd. apply NoDup_app in Hnd as (Hnd1 & _ & _).
    apply Forall_app in Hlit as [Hlit1 _].
    assert (Hlen1 : length (take 500 batch) = 500%nat) by (rewrite length_take; lia).
    assert (Hpre : AddMetadata_map ∅ (take 500 batch)
                   = (list_to_map (take 500 batch) ∪ ∅, None)).
    { apply AddMetadata_map_literals; [done|done|]. rewrite map_size_empty. lia. }
    rewrite AddMetadata_map_app; rewrite Hpre; [|done]. simpl.
    destruct (drop 500 batch) as [|[k v] rest] eqn:Hdrop.
    { apply (f_equal length) in Hdrop. rewrite length_drop in Hdrop. simpl in Hdrop. lia. }
    simpl. rewrite addMetadata_map_full; [done|].
    rewrite (right_id_L ∅ (∪)), map_size_list_to_map; [lia|done].
Qed.

Lemma NewEventWithMetadata_literal_batch_witness :
  Forall literal (filler_batch 501) /\ NoDup (filler_batch 501).*1 /\
  NewEventWithMetadata (Some "app-fe1") now0 "user.login" Create (filler_batch 501)
    = Ret (zero_event, Some ErrCapacity).
Proof.
  assert (Hlit : Forall literal (filler_batch 501)).
  { apply Forall_forall. intros [k v] Hin.
    unfold filler_batch in Hin. apply list_elem_of_fmap in Hin as (i & Hi & _).
    inversion Hi; subst. intros a; discriminate. }
  assert (Hnd : NoDup (filler_batch 501).*1).
  { apply (bool_decide_unpack _). vm_compute. reflexivity. }
  split; [done|]. split; [done|].
  apply (proj2 (NewEventWithMetadata_literal_batch (Some "app-fe1") now0 "user.login"
                  Create (filler_batch 501) Hlit Hnd)).
  unfold filler_batch. rewrite length_map, length_seq. lia.
Defined.

Lemma AddMetadata_size_bound_witness :
  (size (filler 499) <= 501)%nat /\
  (size (fst (AddMetadata_map (filler 499) [("parent_tweet", VAuditable user_obj)]))
     <= 501)%nat.
Proof.
  assert (H : (size (filler 499) <= 501)%nat) by (vm_compute; lia).
  split; [done|].
  exact (proj1 (AddMetadata_size_bound (filler 499) [("parent_tweet", VAuditable user_obj)]) H).
Defined.

Section PublishMore.

Variable PublishEvent : json -> option error.

(** [Event{}] (what [NewEventWithMetadata] returns on error) has a nil map:
    [AddMetadata] panics on any non-empty batch, [Publish] panics as soon as
    there is default metadata, and without defaults it sends metadata
    [null]. *)
Theorem zero_event_nil_map (batch : list (string * value)) (g : meta) :
  (batch <> [] -> AddMetadata zero_event batch = Panic) /\
  (g <> ∅ -> Publish PublishEvent g zero_event = Panic) /\
  (exists body, Publish PublishEvent ∅ zero_event
                = Ret (zero_event, PublishEvent body, [body]) /\
                json_field "metadata" body = Some JNull).
Proof.
  split; [|split].
  - destruct batch; [done|]. done.
  - intros Hg. unfold Publish, merge_global. simpl.
    case_decide as Hs; [|done]. by apply map_size_empty_inv in Hs.
  - unfold Publish, merge_global. simpl. rewrite map_size_empty. simpl.
    eexists. split; reflexivity.
Qed.

(** Without default metadata [Publish] leaves the event as it is and sends
    its serialization. *)
Theorem Publish_no_defaults (e : Event) :
  Publish PublishEvent ∅ e =
    match json_Marshal e with
    | None => Ret (e, Some ErrSerialization, [])
    | Some body => Ret (e, PublishEvent body, [body])
    end.
Proof.
  unfold Publish. destruct (Metadata e) as [m|] eqn:Hm.
  - rewrite merge_global_Some, (left_id_L ∅ (∪)), set_Metadata_of by done. done.
  - unfold merge_global. rewrite map_size_empty. simpl.
    rewrite <-Hm, set_Metadata_same. done.
Qed.

End PublishMore.

Lemma zero_event_nil_map_witness :
  ([("body", VString "x")] <> [] -> AddMetadata zero_event [("body", VString "x")] = Panic) /\
  (defaults1 <> ∅ -> Publish transport_ok defaults1 zero_event = Panic) /\
  [("body", VString "x")] <> [] /\ defaults1 <> ∅.
Proof.
  assert (Hg : defaults1 <> ∅).
  { intros H. apply (f_equal (lookup "hostname")) in H. vm_compute in H. discriminate. }
  pose proof (zero_event_nil_map transport_ok [("body", VString "x")] defaults1)
    as (H1 & H2 & _).
  split; [exact H1|]. split; [exact H2|]. split; [discriminate|exact Hg].
Defined.

(** ** The metadata object of a published record *)

#[global] Instance key_le_trans : Transitive key_le.
Proof. intros [x ?] [y ?] [z ?]. unfold key_le. simpl. apply transitivity. Qed.

#[global] Instance key_le_total : Total key_le.
Proof. intros [x ?] [y ?]. unfold key_le. simpl. apply total, _. Qed.

Lemma StronglySorted_keys (l : list (string * value)) :
  StronglySorted key_le l -> StronglySorted String.le l.*1.
Proof.
  induction 1 as [|[k v] l Hs IH Hall]; simpl; constructor; [done|].
  apply Forall_fmap. eapply Forall_impl; [exact Hall|]. intros [k' v']. done.
Qed.

(** The metadata object of a record [Publish] hands to the transport has
    one member per entry of the merged map (defaults over the event's own),
    in increasing byte order of the Go keys; each member is named by its key
    as a JSON string and holds the encoding of its value. *)
Theorem Publish_metadata_object (PublishEvent : json -> option error) (g : meta)
    (e e' : Event) (m : meta) r sent body :
  Metadata e = Some m ->
  Publish PublishEvent g e = Ret (e', r, sent) -> body ∈ sent ->
  exists entries fields,
    json_field "metadata" body = Some (JObj fields) /\
    entries ≡ₚ map_to_list (g ∪ m) /\
    StronglySorted String.le entries.*1 /\
    Forall2 (fun kv f => exists j, encode_value kv.2 = Some j /\ f = (go_string kv.1, j))
      entries fields.
Proof.
  intros Hm Hp Hin.
  destruct (Publish_cases PublishEvent g e e' r sent Hp) as (md & Hmerge & -> & Hend).
  destruct Hend as [(_ & _ & ->)|(body' & Hj & _ & ->)];
    [by apply not_elem_of_nil in Hin|].
  apply list_elem_of_singleton in Hin. subst body'.
  rewrite Hm, merge_global_Some in Hmerge. inversion Hmerge; subst md.
  destruct (json_Marshal_shape _ _ Hj) as (t & mj & _ & Hmj & ->).
  simpl in Hmj. unfold encode_meta in Hmj.
  set (l := merge_sort key_le (map_to_list (g ∪ m))) in Hmj.
  destruct (mapM encode_entry l) as [fs|] eqn:Hfs; simpl in Hmj; [|discriminate].
  inversion Hmj; subst mj.
  exists l, fs. split; [done|]. split; [|split].
  - apply sorted_entries_perm.
  - apply StronglySorted_keys.
    apply StronglySorted_merge_sort; [exact key_le_trans | exact key_le_total].
  - by apply encode_entries_Forall2.
Qed.

Lemma Publish_metadata_object_witness :
  Metadata event1 = Some (<["hostname" := VString "per-event"]> {[ "body" := VString "x" ]}) /\
  Publish transport_ok defaults1 event1
    = Ret (event1_merged, None, [body_of event1_merged]) /\
  body_of event1_merged ∈ [body_of event1_merged] /\
  exists entries fields,
    json_field "metadata" (body_of event1_merged) = Some (JObj fields) /\
    entries ≡ₚ map_to_list
      (defaults1 ∪ <["hostname" := VString "per-event"]> {[ "body" := VString "x" ]}) /\
    StronglySorted String.le entries.*1 /\
    Forall2 (fun kv f => exists j, encode_value kv.2 = Some j /\ f = (go_string kv.1, j))
      entries fields.
Proof.
  assert (Hp : Publish transport_ok defaults1 event1
               = Ret (event1_merged, None, [body_of event1_merged]))
    by (vm_compute; reflexivity).
  assert (Hin : body_of event1_merged ∈ [body_of event1_merged])
    by (by apply list_elem_of_singleton).
  split; [reflexivity|]. split; [exact Hp|]. split; [exact Hin|].
  exact (Publish_metadata_object transport_ok defaults1 event1 event1_merged
           (<["hostname" := VString "per-event"]> {[ "body" := VString "x" ]})
           None [body_of event1_merged] (body_of event1_merged) eq_refl Hp Hin).
Defined.

(** ** Sequences of builder calls *)

(** A caller's use of an event, as in the README: the setters,
    [AddMetadata] (its error dropped) and [Publish] (its result dropped),
    called on one event variable in any order. *)
Inductive builder_call :=
| CallSetGroup (a : auditable_obj)
| CallSetActor (a : auditable_obj)
| CallSetTarget (a : auditable_obj)
| CallSetLocation (location : string)
| CallAddMetadata (batch : list (string * value))
| CallPublish (globalMetadata : meta).

Definition run_call (PublishEvent : json -> option error) (e : Event)
    (c : builder_call) : go Event :=
  match c with
  | CallSetGroup a => Ret (SetGroup e a)
  | CallSetActor a => Ret (SetActor e a)
  | CallSetTarget a => Ret (SetTarget e a)
  | CallSetLocation l => Ret (SetLocation e l)
  | CallAddMetadata batch =>
      match AddMetadata e batch with Ret (e', _) => Ret e' | Panic => Panic end
  | CallPublish g =>
      match Publish PublishEvent g e with Ret (e', _, _) => Ret e' | Panic => Panic end
  end.

Fixpoint run_calls (PublishEvent : json -> option error) (e : Event)
    (cs : list builder_call) : go Event :=
  match cs with
  | [] => Ret e
  | c :: rest =>
      match run_call PublishEvent e c with
      | Ret e' => run_calls PublishEvent e' rest
      | Panic => Panic
      end
  end.

Lemma run_call_keeps (PublishEvent : json -> option error) (e e' : Event) c :
  run_call PublishEvent e c = Ret e' ->
  OccuredAt e' = OccuredAt e /\ EAction e' = EAction e /\
  EActionType e' = EActionType e /\
  (is_Some (Metadata e) -> is_Some (Metadata e')).
Proof.
  destruct c as [a|a|a|l|batch|g]; simpl; try (intros [= <-]; done).
  - unfold AddMetadata.
    destruct (Metadata e) as [m|] eqn:Hm.
    + destruct (AddMetadata_map m batch) as [m' r]. intros [= <-]. simpl. eauto.
    + destruct batch; [|discriminate]. intros [= <-]. done.
  - destruct (Publish PublishEvent g e) as [[[e'' r] sent]|] eqn:Hp; [|discriminate].
    intros [= <-].
    destruct (Publish_cases PublishEvent g e e'' r sent Hp) as (md & Hmerge & -> & _).
    simpl. split; [done|]. split; [done|]. split; [done|].
    intros [m Hm]. rewrite Hm, merge_global_Some in Hmerge.
    inversion Hmerge; subst. eauto.
Qed.

(** Whatever builder calls a caller makes, in whatever order, the event keeps
    the timestamp, action and action type it was created with, and a
    non-nil metadata map stays non-nil. *)
Theorem run_calls_keep_creation_fields (PublishEvent : json -> option error)
    (e e' : Event) (cs : list builder_call) :
  run_calls PublishEvent e cs = Ret e' ->
  OccuredAt e' = OccuredAt e /\ EAction e' = EAction e /\
  EActionType e' = EActionType e /\
  (is_Some (Metadata e) -> is_Some (Metadata e')).
Proof.
  revert e. induction cs as [|c cs IH]; intros e; simpl.
  - intros [= <-]. done.
  - destruct (run_call PublishEvent e c) as [e1|] eqn:Hc; [|discriminate].
    intros Hrun.
    destruct (run_call_keeps PublishEvent e e1 c Hc) as (H1 & H2 & H3 & H4).
    destruct (IH e1 Hrun) as (H1' & H2' & H3' & H4').
    split; [congruence|]. split; [congruence|]. split; [congruence|]. auto.
Qed.

(** The README's sequence of calls followed by a publication, twice. *)
Definition readme_calls : list builder_call :=
  [CallSetGroup organization; CallSetActor user_obj; CallSetTarget user_obj;
   CallSetLocation "1.1.1.1"; CallAddMetadata boundary_batch;
   CallPublish defaults1; CallAddMetadata [("parent_tweet", VAuditable user_obj)];
   CallPublish defaults1].

Definition readme_start : Event := NewEvent (Some "app-fe1") now0 "user.login" Create.

Definition readme_end : Event :=
  match run_calls transport_ok readme_start readme_calls with
  | Ret e => e
  | Panic => zero_event
  end.

Lemma run_calls_keep_creation_fields_witness :
  run_calls transport_ok readme_start readme_calls = Ret readme_end /\
  OccuredAt readme_end = OccuredAt readme_start /\
  EAction readme_end = EAction readme_start /\
  EActionType readme_end = EActionType readme_start /\
  (is_Some (Metadata readme_start) -> is_Some (Metadata readme_end)).
Proof.
  assert (H : run_calls transport_ok readme_start readme_calls = Ret readme_end)
    by (vm_compute; reflexivity).
  split; [exact H|].
  exact (run_calls_keep_creation_fields transport_ok readme_start readme_end
           readme_calls H).
Defined.
